(** * Word statistics over HTTP: a model of [homework4.cpp]

    The program downloads one text file per command-line argument, each
    in a thread of its own, and reports for every file how many words it
    holds and how many of them are in the dictionary [english.txt].

    The development follows the source file top-down:
    - character classes of the "C" locale ([isspace], [ispunct],
      [tolower]) and the 32-bit [int];
    - input streams with their [eofbit]/[failbit], [std::getline] and the
      formatted extraction [is >> str];
    - [loadDictionary], [checkWord], [processFile], [getStats];
    - [main]: a step relation over the threads it starts and joins. *)

From Stdlib Require Import ZArith Ascii String List Lia.
From stdpp Require Import base tactics option list relations gmap strings pretty.

Open Scope string_scope.
Open Scope Z_scope.

(** ** Characters in the "C" locale *)

Module CType.

Definition code (c : ascii) : N := N_of_ascii c.

Definition between (lo hi : N) (c : ascii) : bool :=
  ((lo <=? code c) && (code c <=? hi))%N.

(** [std::isspace] of the classic locale: space, and \t \n \v \f \r. *)
Definition isspace (c : ascii) : bool :=
  (code c =? 32)%N || between 9 13 c.

(** [::ispunct]: the printable characters that are neither space nor
    alphanumeric.  Bytes above 127 are in no class of this locale. *)
Definition ispunct (c : ascii) : bool :=
  between 33 47 c || between 58 64 c || between 91 96 c || between 123 126 c.

Definition isupper (c : ascii) : bool := between 65 90 c.

(** [::tolower]: only 'A'..'Z' change. *)
Definition tolower (c : ascii) : ascii :=
  if isupper c then ascii_of_N (code c + 32) else c.

End CType.

Import CType.

(** ** The type [int] *)

Module Int.

Definition INT_MAX : Z := 2147483647.
Definition INT_MIN : Z := -2147483648.

Definition in_int (z : Z) : Prop := INT_MIN ≤ z ≤ INT_MAX.

(** Reduction to the 32-bit two's-complement range. *)
Definition wrap (z : Z) : Z :=
  (z + 2147483648) mod 4294967296 - 2147483648.

(** [x++] on an [int].  The language leaves the step past [INT_MAX]
    undefined; the value wraps to [INT_MIN], as it does on the
    two's-complement machines the program is built for. *)
Definition incr (x : Z) : Z := wrap (x + 1).

(** [std::to_string(int)]. *)
Definition to_string (x : Z) : string := pretty x.

End Int.

(** ** Strings *)

(** [std::replace_if(s.begin(), s.end(), p, c)]. *)
Fixpoint replace_if (p : ascii → bool) (c : ascii) (s : string) : string :=
  match s with
  | EmptyString => EmptyString
  | String a s' => String (if p a then c else a) (replace_if p c s')
  end.

(** [std::transform(s.begin(), s.end(), s.begin(), f)]. *)
Fixpoint transform (f : ascii → ascii) (s : string) : string :=
  match s with
  | EmptyString => EmptyString
  | String a s' => String (f a) (transform f s')
  end.

(** The character the payload loop makes of [c]: punctuation becomes a
    space, then letters are lowercased. *)
Definition norm_char (c : ascii) : ascii :=
  tolower (if ispunct c then " "%char else c).

(** ** Input streams *)

(** A stream is the text not yet read and the two state bits the program
    depends on.  Reads that would block simply wait for the data, so the
    text is everything the peer sends before it closes the connection. *)
Record istream : Type := Istream {
  buf : string;
  eofbit : bool;
  failbit : bool
}.

Definition good (ist : istream) : bool := negb (eofbit ist) && negb (failbit ist).

Definition set_fail (ist : istream) : istream :=
  {| buf := buf ist; eofbit := eofbit ist; failbit := true |}.

(** A stream over a text, in the good state: [std::stringstream ss(line)],
    or a file or connection that was opened. *)
Definition stringstream (s : string) : istream :=
  {| buf := s; eofbit := false; failbit := false |}.

(** A stream whose file or connection could not be opened: there is nothing
    to read and [failbit] is set. *)
Definition failed_stream : istream :=
  {| buf := ""; eofbit := false; failbit := true |}.

Definition open_stream (content : option string) : istream :=
  match content with
  | Some s => stringstream s
  | None => failed_stream
  end.

Definition is_newline (c : ascii) : bool := (code c =? 10)%N.

(** The characters up to the first newline, what follows that newline, and
    whether a newline was there at all. *)
Fixpoint read_line (s : string) : string * string * bool :=
  match s with
  | EmptyString => (EmptyString, EmptyString, false)
  | String c s' =>
      if is_newline c then (EmptyString, s', true)
      else let '(l, r, nl) := read_line s' in (String c l, r, nl)
  end.

Definition is_empty (s : string) : bool :=
  match s with EmptyString => true | _ => false end.

(** [std::getline(is, str)]: the line read, if the call succeeded, and the
    stream after the call.  Without a newline the rest of the text is the
    line and [eofbit] is set; a call that extracts nothing sets [failbit]. *)
Definition getline (ist : istream) : option string * istream :=
  if good ist then
    let '(l, r, nl) := read_line (buf ist) in
    if nl then (Some l, {| buf := r; eofbit := false; failbit := false |})
    else if is_empty l then (None, {| buf := ""; eofbit := true; failbit := true |})
    else (Some l, {| buf := ""; eofbit := true; failbit := false |})
  else (None, set_fail ist).

(** Leading whitespace removed. *)
Fixpoint skipws (s : string) : string :=
  match s with
  | EmptyString => EmptyString
  | String c s' => if isspace c then skipws s' else s
  end.

(** The longest prefix without whitespace, and the rest. *)
Fixpoint read_word (s : string) : string * string :=
  match s with
  | EmptyString => (EmptyString, EmptyString)
  | String c s' =>
      if isspace c then (EmptyString, s)
      else let '(w, r) := read_word s' in (String c w, r)
  end.

(** [is >> str]: skip whitespace, then read up to the next whitespace or the
    end of the text.  Reaching the end sets [eofbit]; extracting nothing
    sets [failbit]. *)
Definition extract (ist : istream) : option string * istream :=
  if good ist then
    match skipws (buf ist) with
    | EmptyString => (None, {| buf := ""; eofbit := true; failbit := true |})
    | s =>
        let '(w, r) := read_word s in
        (Some w, {| buf := r; eofbit := is_empty r; failbit := false |})
    end
  else (None, set_fail ist).

(** The loop [while (ist >> x) { body }], run on the state [a].  Every
    successful extraction consumes at least one character, so one more
    round than there are characters is always enough ([while_extract_fuel]
    below shows that further rounds change nothing). *)
Fixpoint while_extract_loop {A : Type} (body : A → string → A)
    (fuel : nat) (ist : istream) (a : A) : A :=
  match fuel with
  | O => a
  | S fuel' =>
      match extract ist with
      | (Some x, ist') => while_extract_loop body fuel' ist' (body a x)
      | (None, _) => a
      end
  end.

Definition while_extract {A : Type} (body : A → string → A)
    (ist : istream) (a : A) : A :=
  while_extract_loop body (S (String.length (buf ist))) ist a.

(** ** The dictionary *)

(** [std::unordered_map<std::string, bool>]. *)
Abbreviation Dictionary := (gmap string bool).

(** The files the program can open, by path. *)
Abbreviation filesystem := (string → option string).

(** [loadDictionary]: every word of the file is entered with [true]. *)
Definition loadDictionary (fs : filesystem) (filePath : string) : Dictionary :=
  let ifs := open_stream (fs filePath) in
  while_extract (fun result line => <[line := true]> result) ifs ∅.

(** The global [dictionary]. *)
Definition dictionary (fs : filesystem) : Dictionary :=
  loadDictionary fs "english.txt".

(** The body of the loop of [checkWord], for the entry [a]. *)
Definition scan_step (word : string) (isEng : bool) (a : string * bool) : bool :=
  if String.eqb a.1 word && Bool.eqb a.2 true then true else isEng.

(** [checkWord]: the scan over all entries of the dictionary, in whatever
    order the container enumerates them. *)
Definition checkWord (dictionary : Dictionary) (word : string) : bool :=
  fold_left (scan_step word) (map_to_list dictionary) false.

(** ** Processing one response *)

Record tally : Type := Tally {
  wordCount : Z;
  englishWords : Z
}.

(** The body of the inner loop of [processFile]: one word is checked and
    counted. *)
Definition accumulate (dictionary : Dictionary) (t : tally) (word : string)
    : tally :=
  let isEng := checkWord dictionary word in
  let english := if isEng then Int.incr (englishWords t) else englishWords t in
  {| wordCount := Int.incr (wordCount t); englishWords := english |}.

Definition CR : string := String "013"%char "".
Definition CRLF : string := String "013"%char (String "010"%char "").

(** The header loop of [processFile]:
    [for (hdr; getline(is, hdr) && !hdr.empty() && hdr != CR;) {}]. *)
Fixpoint skip_headers_loop (fuel : nat) (ist : istream) : istream :=
  match fuel with
  | O => ist
  | S fuel' =>
      match getline ist with
      | (Some hdr, ist') =>
          if negb (is_empty hdr) && negb (String.eqb hdr CR)
          then skip_headers_loop fuel' ist'
          else ist'
      | (None, ist') => ist'
      end
  end.

Definition skip_headers (ist : istream) : istream :=
  skip_headers_loop (S (String.length (buf ist))) ist.

(** The payload loop of [processFile], with [visit] for what is done with
    each word of the inner loop. *)
Definition payload_loop {A : Type} (visit : A → string → A)
    (ist : istream) (a : A) : A :=
  while_extract
    (fun a line =>
       let line := replace_if ispunct " "%char line in
       let line := transform tolower line in
       let ss := stringstream line in
       while_extract visit ss a)
    ist a.

(** The two counters of [processFile] when its loops are done. *)
Definition processFile_tally (dictionary : Dictionary) (ist : istream) : tally :=
  let ist := skip_headers ist in
  payload_loop (accumulate dictionary) ist {| wordCount := 0; englishWords := 0 |}.


Definition format_stats (file : string) (t : tally) : string :=
  file ++ ": words=" ++ Int.to_string (wordCount t) ++
  ", English words=" ++ Int.to_string (englishWords t).

(** [processFile]. *)
Definition processFile (dictionary : Dictionary) (ist : istream)
    (file : string) : string :=
  format_stats file (processFile_tally dictionary ist).

(** The words the payload loop hands to [checkWord], in order. *)
Definition payload_words (ist : istream) : list string :=
  payload_loop (fun ws word => (ws ++ [word])%list) ist [].

(** ** Fetching one file *)

(** What the network answers: for a host, a port and the bytes of a request,
    the whole response, or nothing when no connection could be made. *)
Abbreviation network := (string → string → string → option string).

Definition host : string := "os1.csi.miamioh.edu".
Definition port : string := "80".

(** The request [getStats] writes to the connection. *)
Definition request (file : string) : string :=
  let path := "/~raodm/cse381/hw4/SlowGet.cgi?file=" ++ file in
  "GET " ++ path ++ " HTTP/1.1" ++ CRLF ++
  "Host: " ++ host ++ CRLF ++
  "Connection: Close" ++ CRLF ++ CRLF.

(** What comes back for a file, if the connection could be made. *)
Definition fetch (net : network) (file : string) : option string :=
  net host port (request file).

(** [getStats]. *)
Definition getStats (dictionary : Dictionary) (net : network) (file : string)
    : string :=
  let data := open_stream (fetch net file) in
  let results := processFile dictionary data file in
  results.

(** ** The threads of [main] *)

Module Main.
Section Run.

Variable dictionary : Dictionary.
Variable net : network.
(** [argv], with the name of the program at index 0. *)
Variable argv : list string.

Definition argc : nat := length argv.

(** [next] is the counter of the loop that starts the threads, [running]
    the threads started and not yet finished, [stats] the vector of
    results. *)
Record state : Type := State {
  next : nat;
  running : gset nat;
  stats : list string
}.

Definition init : state :=
  {| next := 1; running := ∅; stats := replicate argc "" |}.

(** Either [main] starts the next thread, or one of the running threads
    stores its result and ends; which of them moves is not determined. *)
Inductive step : state → state → Prop :=
| step_spawn s :
    (next s < argc)%nat →
    step s {| next := S (next s);
              running := {[next s]} ∪ running s;
              stats := stats s |}
| step_finish s i file :
    i ∈ running s →
    argv !! i = Some file →
    step s {| next := next s;
              running := running s ∖ {[i]};
              stats := <[i := getStats dictionary net file]> (stats s) |}.

(** All threads were started and every [join] has returned. *)
Definition joined (s : state) : Prop :=
  (argc ≤ next s)%nat ∧ running s = ∅.

(** The last loop of [main]: what is written to [std::cout]. *)
Definition print (stats : list string) : string :=
  fold_left
    (fun cout i => cout ++ (stats !!! i) ++ String "010"%char "")
    (seq 1 (argc - 1)) "".

Definition exit_code : Z := 0.

(** [main] returns [code] after writing [cout]. *)
Definition returns (cout : string) (code : Z) : Prop :=
  ∃ s, rtc step init s ∧ joined s ∧ cout = print (stats s) ∧ code = exit_code.

(** What holds of every state [main] can be in: the vector keeps its size,
    the running threads are among those started, and the slot of every
    thread that has ended holds the result for its own argument. *)
Record invariant (s : state) : Prop := {
  inv_length : length (stats s) = argc;
  inv_next : (1 ≤ next s)%nat;
  inv_running : ∀ i, i ∈ running s → (1 ≤ i < next s)%nat ∧ (i < argc)%nat;
  inv_stats : ∀ i file,
    (1 ≤ i < next s)%nat → i ∉ running s →
    argv !! i = Some file →
    stats s !! i = Some (getStats dictionary net file)
}.

End Run.
End Main.

(** * Reference definitions, in the words of the specification *)

Definition push_front (c : ascii) (l : list string) : list string :=
  match l with
  | [] => [String c ""]
  | w :: ws => String c w :: ws
  end.

Definition starts_word (s : string) : bool :=
  match s with
  | EmptyString => false
  | String c _ => negb (isspace c)
  end.

(** A text split on runs of whitespace, without empty fragments. *)
Fixpoint split_ws (s : string) : list string :=
  match s with
  | EmptyString => []
  | String c s' =>
      if isspace c then split_ws s'
      else if starts_word s' then push_front c (split_ws s')
      else String c "" :: split_ws s'
  end.

(** Punctuation replaced by spaces, letters lowercased, then split. *)
Definition tokenize (line : string) : list string :=
  split_ws (transform tolower (replace_if ispunct " "%char line)).

(** The number of maximal runs of characters satisfying [p]; [inside] tells
    whether the previous character is part of a run. *)
Fixpoint count_runs (p : ascii → bool) (inside : bool) (s : string) : nat :=
  match s with
  | EmptyString => 0
  | String c s' =>
      if p c then (if inside then 0 else 1) + count_runs p true s'
      else count_runs p false s'
  end.

Definition word_char (c : ascii) : bool := negb (isspace c) && negb (ispunct c).

(** The lines of a text, as ended by newlines; a last line without its
    newline counts when it is not empty. *)
Fixpoint lines (s : string) : list string :=
  match s with
  | EmptyString => []
  | String c s' =>
      if is_newline c then "" :: lines s' else push_front c (lines s')
  end.

(** The line that separates headers from payload: empty, or only a carriage
    return. *)
Definition is_boundary (l : string) : bool := is_empty l || String.eqb l CR.

(** No line of the text is a boundary. *)
Definition no_boundary (s : string) : Prop :=
  forallb (fun l => negb (is_boundary l)) (lines s) = true.

Fixpoint has_newline (s : string) : bool :=
  match s with
  | EmptyString => false
  | String c s' => is_newline c || has_newline s'
  end.

(** A header line: one line, and not the boundary. *)
Definition header_line (h : string) : bool :=
  negb (is_boundary h) && negb (has_newline h).

(** A response: header lines, the boundary line, the payload. *)
Definition response (hdrs : list string) (sep : string) (body : string) : string :=
  fold_right (fun h rest => h ++ String "010"%char rest)
    (sep ++ String "010"%char body) hdrs.

(** The words of a file, for a file that can be opened. *)
Definition file_words (fs : filesystem) (filePath : string) : list string :=
  match fs filePath with
  | Some s => split_ws s
  | None => []
  end.

(** Membership in the hash set of the words of the reference file. *)
Definition reference_set (fs : filesystem) : gset string :=
  list_to_set (file_words fs "english.txt").

Definition contains (set : gset string) (word : string) : bool :=
  bool_decide (word ∈ set).

(** The report for the files [files]: one line each, in their order. *)
Definition report (d : Dictionary) (net : network) (files : list string) : string :=
  fold_left
    (fun cout file => cout ++ getStats d net file ++ String "010"%char "")
    files "".

(** Every fetch of the batch fails. *)
Definition all_failed (net : network) (argv : list string) : Prop :=
  ∀ file, file ∈ tail argv → fetch net file = None.

Fixpoint has_upper (s : string) : bool :=
  match s with
  | EmptyString => false
  | String c s' => isupper c || has_upper s'
  end.


Definition tally0 : tally := {| wordCount := 0; englishWords := 0 |}.

(** How many of the tokens the dictionary knows. *)
Fixpoint recognized (d : Dictionary) (T : list string) : nat :=
  match T with
  | [] => 0
  | w :: T' => (if checkWord d w then 1 else 0) + recognized d T'
  end.

(** [n] copies of [s] in a row. *)
Fixpoint string_repeat (n : nat) (s : string) : string :=
  match n with
  | O => ""
  | S n' => s ++ string_repeat n' s
  end.

(** ** A small installation, for the examples *)

Definition sample_fs : filesystem :=
  fun path => if String.eqb path "english.txt" then Some "the quick fox" else None.

Definition sample_dictionary : Dictionary := dictionary sample_fs.

(** File [a] is served with headers, [b] without any, and no connection is
    made for anything else. *)
Definition sample_net : network :=
  fun _ _ req =>
    if String.eqb req (request "a")
    then Some ("HTTP/1.1 200 OK" ++ CRLF ++ "Content-Type: text/plain" ++ CRLF
               ++ CRLF ++ "The Quick Brown Fox jumps.")
    else if String.eqb req (request "b")
    then Some "The Quick Brown Fox jumps."
    else None.

Definition sample_argv : list string := ["./homework4"; "a"; "b"; "c"].

(** [main] on these arguments, after its joins. *)
Definition sample_final : Main.state :=
  {| Main.next := 4;
     Main.running := ∅;
     Main.stats := [""; "a: words=5, English words=3";
                    "b: words=0, English words=0";
                    "c: words=0, English words=0"] |}.

(** ** Further reference definitions *)

(** Every character of [s] satisfies [p]. *)
Fixpoint string_all (p : ascii → bool) (s : string) : bool :=
  match s with
  | EmptyString => true
  | String c s' => p c && string_all p s'
  end.

(** A character that separates words: whitespace or punctuation. *)
Definition separator (c : ascii) : bool := isspace c || ispunct c.

(** A character that a word handed to [checkWord] can have. *)
Definition token_char (c : ascii) : bool :=
  negb (isspace c) && negb (ispunct c) && negb (isupper c).

(** How many of the tokens are among the words [known]. *)
Fixpoint count_known (known : list string) (T : list string) : nat :=
  match T with
  | [] => 0
  | w :: T' => (if bool_decide (w ∈ known) then 1 else 0) + count_known known T'
  end.

(** * Properties *)

(** ** Character classes *)

Ltac by_cases_on_char c :=
  destruct c as [[] [] [] [] [] [] [] []]; vm_compute; intuition congruence.

Lemma norm_char_space c : isspace c = true → isspace (norm_char c) = true.
Proof. by_cases_on_char c. Qed.

Lemma norm_char_isspace c : isspace (norm_char c) = isspace c || ispunct c.
Proof. by_cases_on_char c. Qed.

Lemma norm_char_not_upper c : isupper (norm_char c) = false.
Proof. by_cases_on_char c. Qed.

Lemma word_char_norm c : word_char c = negb (isspace (norm_char c)).
Proof. by_cases_on_char c. Qed.

Lemma normalize_transform s :
  transform tolower (replace_if ispunct " "%char s) = transform norm_char s.
Proof. induction s as [|c s IH]; simpl; [done | by rewrite IH]. Qed.

(** ** Splitting on whitespace *)

Lemma starts_word_split s :
  starts_word s = true →
  ∃ c s' w ws, s = String c s' ∧ isspace c = false ∧ split_ws s = String c w :: ws.
Proof.
  destruct s as [|c s']; simpl; [done |].
  intros Hc%negb_true_iff. exists c, s'. rewrite Hc.
  destruct (starts_word s').
  - destruct (split_ws s') as [|w ws]; simpl; eauto.
  - eauto.
Qed.

Lemma starts_word_transform s :
  starts_word s = false → starts_word (transform norm_char s) = false.
Proof.
  destruct s as [|c s']; simpl; [done |].
  intros Hc%negb_false_iff. by rewrite norm_char_space.
Qed.

Lemma split_ws_skipws s : split_ws (skipws s) = split_ws s.
Proof.
  induction s as [|c s IH]; simpl; [done |].
  destruct (isspace c) eqn:Hc; simpl; [done | by rewrite Hc].
Qed.

Lemma skipws_length s : (String.length (skipws s) ≤ String.length s)%nat.
Proof.
  induction s as [|c s IH]; simpl; [lia |].
  destruct (isspace c); simpl; lia.
Qed.

Lemma skipws_starts_word s : skipws s = "" ∨ starts_word (skipws s) = true.
Proof.
  induction s as [|c s IH]; simpl; [by left |].
  destruct (isspace c) eqn:Hc; [done |]. right. simpl. by rewrite Hc.
Qed.

(** What [read_word] returns is the first fragment; the rest is shorter and
    holds the other fragments. *)
Lemma read_word_split s w r :
  starts_word s = true →
  read_word s = (w, r) →
  split_ws s = w :: split_ws r ∧ (String.length r < String.length s)%nat.
Proof.
  revert w r. induction s as [|c s IH]; intros w r; simpl; [done |].
  intros Hc%negb_true_iff. rewrite Hc.
  destruct s as [|c' s'].
  - simpl. intros [= <- <-]. simpl. split; [done | lia].
  - destruct (read_word (String c' s')) as [w' r'] eqn:Hrw.
    intros [= <- <-].
    destruct (starts_word (String c' s')) eqn:Hs.
    + destruct (IH w' r' eq_refl eq_refl) as [-> Hlen]. simpl in *. split; [done | lia].
    + simpl in Hs, Hrw. apply negb_false_iff in Hs. rewrite Hs in Hrw.
      injection Hrw as <- <-. simpl. rewrite Hs. split; [done | lia].
Qed.

(** ** The extraction loop *)

Section WhileExtract.

Context {A : Type} (body : A → string → A).

(** With enough rounds, the loop folds its body over the fragments of the
    text, and does nothing on a stream that is not good. *)
Lemma while_extract_loop_fold fuel ist a :
  (String.length (buf ist) < fuel)%nat →
  while_extract_loop body fuel ist a =
    if good ist then fold_left body (split_ws (buf ist)) a else a.
Proof.
  revert ist a. induction fuel as [|fuel IH]; intros ist a Hlen; [lia |].
  simpl. unfold extract. destruct (good ist); [| done].
  pose proof (skipws_length (buf ist)) as Hskip.
  rewrite <- (split_ws_skipws (buf ist)).
  destruct (skipws_starts_word (buf ist)) as [-> | Hsw]; [done |].
  destruct (skipws (buf ist)) as [|c s'] eqn:Hs; [done |].
  destruct (read_word (String c s')) as [w r] eqn:Hrw.
  destruct (read_word_split _ _ _ Hsw Hrw) as [-> Hr].
  rewrite IH by (simpl in *; lia).
  unfold good; simpl. by destruct r.
Qed.

Lemma while_extract_fold ist a :
  while_extract body ist a =
    if good ist then fold_left body (split_ws (buf ist)) a else a.
Proof. apply while_extract_loop_fold. lia. Qed.

(** The loop has ended within the rounds [while_extract] allows: more of
    them change nothing. *)
Lemma while_extract_fuel fuel ist a :
  (String.length (buf ist) < fuel)%nat →
  while_extract_loop body fuel ist a = while_extract body ist a.
Proof.
  intros Hlen. by rewrite while_extract_fold, while_extract_loop_fold.
Qed.

End WhileExtract.

(** ** Tokens: splitting twice is splitting once *)

Lemma fold_left_flat_map {A B C : Type} (f : A → B → A) (g : C → list B) l a :
  fold_left (fun a x => fold_left f (g x) a) l a = fold_left f (flat_map g l) a.
Proof.
  revert a. induction l as [|x l IH]; intros a; simpl; [done |].
  by rewrite fold_left_app, IH.
Qed.

Lemma fold_left_pointwise {A B : Type} (f g : A → B → A) l a :
  (∀ a x, f a x = g a x) → fold_left f l a = fold_left g l a.
Proof.
  intros Hfg. revert a. induction l as [|x l IH]; intros a; simpl; [done |].
  by rewrite Hfg, IH.
Qed.

Lemma split_ws_nonempty s : starts_word s = true → split_ws s ≠ [].
Proof. intros (c & s' & w & ws & _ & _ & ->)%starts_word_split. done. Qed.

Lemma push_front_app c l1 l2 :
  l1 ≠ [] → (push_front c l1 ++ l2)%list = push_front c (l1 ++ l2)%list.
Proof. by destruct l1. Qed.

(** A fragment that starts with [c] and the text it was cut from split the
    same way once [c] is put in front of their normalised forms. *)
Lemma split_ws_cons_transform c t :
  split_ws (String (norm_char c) t) =
    if isspace (norm_char c) then split_ws t
    else if starts_word t then push_front (norm_char c) (split_ws t)
    else String (norm_char c) "" :: split_ws t.
Proof. done. Qed.

(** Splitting the text, normalising each fragment and splitting it again
    gives the fragments of the normalised text. *)
Lemma split_ws_transform s :
  flat_map (fun w => split_ws (transform norm_char w)) (split_ws s) =
    split_ws (transform norm_char s).
Proof.
  induction s as [|c s IH]; [done |].
  change (transform norm_char (String c s))
    with (String (norm_char c) (transform norm_char s)).
  cbn [split_ws]. destruct (isspace c) eqn:Hc.
  { by rewrite norm_char_space. }
  destruct (starts_word s) eqn:Hs.
  - destruct (starts_word_split s Hs) as (c' & s' & w & ws & -> & Hc' & Hsplit).
    rewrite Hsplit in IH |- *. cbn [push_front flat_map] in IH |- *.
    change (transform norm_char (String c (String c' w)))
      with (String (norm_char c) (transform norm_char (String c' w))).
    rewrite !split_ws_cons_transform.
    destruct (isspace (norm_char c)); [done |].
    change (starts_word (transform norm_char (String c' w)))
      with (starts_word (transform norm_char (String c' s'))).
    destruct (starts_word (transform norm_char (String c' s'))) eqn:Hn.
    + rewrite <- IH. apply push_front_app.
      apply split_ws_nonempty. exact Hn.
    + by rewrite <- IH.
  - cbn [flat_map transform]. rewrite IH.
    rewrite (starts_word_transform s Hs).
    cbn [split_ws starts_word].
    by destruct (isspace (norm_char c)).
Qed.

(** The payload loop visits the tokens of the text of a good stream. *)
Lemma payload_loop_fold {A : Type} (visit : A → string → A) ist a :
  payload_loop visit ist a =
    if good ist then fold_left visit (tokenize (buf ist)) a else a.
Proof.
  unfold payload_loop. rewrite while_extract_fold.
  destruct (good ist); [| done].
  rewrite (fold_left_pointwise _
    (fun a line => fold_left visit (split_ws (transform norm_char line)) a)).
  - rewrite fold_left_flat_map, split_ws_transform.
    unfold tokenize. by rewrite normalize_transform.
  - intros b line. rewrite while_extract_fold. simpl.
    by rewrite normalize_transform.
Qed.

Lemma fold_left_snoc {A : Type} (l acc : list A) :
  fold_left (fun ws w => (ws ++ [w])%list) l acc = (acc ++ l)%list.
Proof.
  revert acc. induction l as [|x l IH]; intros acc; simpl.
  - by rewrite app_nil_r.
  - by rewrite IH, <- app_assoc.
Qed.

Lemma payload_words_tokenize ist :
  payload_words ist = if good ist then tokenize (buf ist) else [].
Proof.
  unfold payload_words. rewrite payload_loop_fold.
  destruct (good ist); [| done]. apply fold_left_snoc.
Qed.

(** ** The dictionary *)

(** The scan ends with [true] when it started so or met the word with the
    flag [true]. *)
Lemma scan_found word (l : list (string * bool)) (b : bool) :
  fold_left (scan_step word) l b = true ↔ b = true ∨ (word, true) ∈ l.
Proof.
  revert b. induction l as [|[k v] l IH]; intros b; simpl.
  - rewrite elem_of_nil. tauto.
  - rewrite IH, elem_of_cons. unfold scan_step. simpl.
    destruct (String.eqb_spec k word) as [-> | Hne]; destruct v; simpl;
      (split; [intros [? | ?]; eauto | intros [? | [? | ?]]; eauto]);
      try done; try congruence.
Qed.

(** The scan finds a word exactly when the dictionary maps it to [true]. *)
Lemma checkWord_lookup (d : Dictionary) (word : string) :
  checkWord d word = true ↔ d !! word = Some true.
Proof.
  unfold checkWord. rewrite scan_found, elem_of_map_to_list.
  split; [intros [? | ?]; done | by right].
Qed.

Lemma lookup_fold_insert (l : list string) (d : Dictionary) (w : string) :
  fold_left (fun result line => <[line := true]> result) l d !! w =
    if bool_decide (w ∈ l) then Some true else d !! w.
Proof.
  revert d. induction l as [|x l IH]; intros d; simpl; [done |].
  rewrite IH. destruct (decide (w = x)) as [-> | Hne].
  - rewrite lookup_insert_eq.
    rewrite (bool_decide_eq_true_2 (x ∈ x :: l)) by (apply elem_of_cons; by left).
    by case_bool_decide.
  - rewrite lookup_insert_ne by done.
    rewrite (bool_decide_ext (w ∈ x :: l) (w ∈ l)); [done |].
    rewrite elem_of_cons. split; [intros [? | ?]; done | by right].
Qed.

Lemma loadDictionary_fold fs filePath :
  loadDictionary fs filePath =
    fold_left (fun result line => <[line := true]> result)
      (file_words fs filePath) ∅.
Proof.
  unfold loadDictionary, file_words. rewrite while_extract_fold.
  by destruct (fs filePath).
Qed.

(** The dictionary maps the words of the file, as they stand there, to
    [true], and nothing else. *)
Lemma loadDictionary_lookup fs filePath w :
  loadDictionary fs filePath !! w =
    if bool_decide (w ∈ file_words fs filePath) then Some true else None.
Proof. by rewrite loadDictionary_fold, lookup_fold_insert, lookup_empty. Qed.

(** ** The header loop *)

(** [read_line] cuts off the first line. *)
Lemma read_line_lines s l r nl :
  s ≠ "" →
  read_line s = (l, r, nl) →
  lines s = l :: lines r ∧ (String.length r < String.length s)%nat ∧
  (nl = false → r = "" ∧ l ≠ "").
Proof.
  revert l r nl. induction s as [|c s IH]; intros l r nl Hne; [done |].
  simpl. destruct (is_newline c).
  { intros [= <- <- <-]. simpl. split; [done | split; [lia | done]]. }
  destruct (read_line s) as [[l' r'] nl'] eqn:Hrl. intros [= <- <- <-].
  destruct s as [|c' s'].
  - simpl in Hrl. injection Hrl as <- <- <-. simpl. split; [done | split; [lia | done]].
  - destruct (IH l' r' nl') as (-> & Hlen & Hnl); [done | done |].
    simpl in *. split; [done | split; [lia |]].
    intros Hf. destruct (Hnl Hf) as [-> _]. done.
Qed.

Lemma is_boundary_test hdr :
  negb (is_empty hdr) && negb (String.eqb hdr CR) = negb (is_boundary hdr).
Proof. unfold is_boundary. by rewrite negb_orb. Qed.

(** Without a boundary line the header loop reads the whole text and leaves
    the stream failed, after at most one round per character and one more. *)
Lemma skip_headers_loop_no_boundary fuel ist :
  (String.length (buf ist) < fuel)%nat →
  no_boundary (buf ist) →
  let ist' := skip_headers_loop fuel ist in
  buf ist' = (if good ist then "" else buf ist) ∧ failbit ist' = true.
Proof.
  revert ist. induction fuel as [|fuel IH]; intros ist Hlen Hnb; [lia |].
  simpl. unfold getline. destruct (good ist) eqn:Hgood; [| done].
  destruct (buf ist) as [|c s] eqn:Hbuf; [by simpl |].
  destruct (read_line (String c s)) as [[l r] nl] eqn:Hrl.
  destruct (read_line_lines (String c s) l r nl) as (Hlines & Hr & Hnl);
    [done | done |].
  unfold no_boundary in Hnb. rewrite Hlines in Hnb.
  apply andb_true_iff in Hnb as [Hl Hrest].
  assert (negb (is_empty l) && negb (String.eqb l CR) = true) as Htest.
  { by rewrite is_boundary_test. }
  destruct nl.
  - rewrite Htest. destruct (IH {| buf := r; eofbit := false; failbit := false |})
      as [H1 H2]; [simpl in *; lia | exact Hrest |]. done.
  - destruct (Hnl eq_refl) as [-> Hl'].
    assert (is_empty l = false) as He by (by destruct l).
    rewrite He. cbv iota beta. rewrite Htest.
    destruct fuel as [|fuel']; [simpl in Hlen; lia | by simpl].
Qed.

Lemma skip_headers_no_boundary s :
  no_boundary s →
  buf (skip_headers (stringstream s)) = "" ∧
  failbit (skip_headers (stringstream s)) = true.
Proof.
  intros Hnb.
  apply (skip_headers_loop_no_boundary _ (stringstream s)); simpl; [lia | done].
Qed.

Lemma read_line_header h rest :
  has_newline h = false →
  read_line (h ++ String "010"%char rest) = (h, rest, true).
Proof.
  induction h as [|c h IH]; simpl; [done |].
  intros [-> Hh]%orb_false_iff. by rewrite IH.
Qed.

Lemma is_boundary_no_newline sep : is_boundary sep = true → has_newline sep = false.
Proof.
  unfold is_boundary. intros [H | H]%orb_true_iff.
  - by destruct sep.
  - by apply String.eqb_eq in H as ->.
Qed.

(** On a response the header loop stops behind the boundary line, with the
    stream still good. *)
Lemma skip_headers_loop_response fuel hdrs sep body :
  (length hdrs < fuel)%nat →
  forallb header_line hdrs = true →
  is_boundary sep = true →
  skip_headers_loop fuel (stringstream (response hdrs sep body)) =
    stringstream body.
Proof.
  intros Hfuel Hhdrs Hsep. revert fuel Hfuel.
  induction hdrs as [|h hdrs IH]; intros fuel Hfuel.
  - destruct fuel as [|fuel]; [simpl in Hfuel; lia |].
    simpl. unfold getline. simpl.
    rewrite read_line_header by by apply is_boundary_no_newline.
    by rewrite is_boundary_test, Hsep.
  - destruct fuel as [|fuel]; [simpl in Hfuel; lia |].
    simpl in Hhdrs. apply andb_true_iff in Hhdrs as [Hh Hhdrs].
    apply andb_true_iff in Hh as [Hb Hnl%negb_true_iff].
    simpl. unfold getline. simpl. rewrite read_line_header by done.
    rewrite is_boundary_test, Hb. apply IH; [done |]. simpl in Hfuel. lia.
Qed.

Lemma length_append s1 s2 :
  String.length (s1 ++ s2) = (String.length s1 + String.length s2)%nat.
Proof. induction s1 as [|c s1 IH]; simpl; [done | by rewrite IH]. Qed.

Lemma response_length hdrs sep body :
  (length hdrs < S (String.length (response hdrs sep body)))%nat.
Proof.
  induction hdrs as [|h hdrs IH]; simpl; [lia |].
  rewrite length_append. simpl. lia.
Qed.

Lemma skip_headers_response hdrs sep body :
  forallb header_line hdrs = true →
  is_boundary sep = true →
  skip_headers (stringstream (response hdrs sep body)) = stringstream body.
Proof.
  intros. apply skip_headers_loop_response; [| done | done].
  apply response_length.
Qed.

(** The header loop has ended within the rounds [skip_headers] allows. *)
Lemma skip_headers_fuel fuel ist :
  (String.length (buf ist) < fuel)%nat →
  skip_headers_loop fuel ist = skip_headers ist.
Proof.
  unfold skip_headers.
  assert (∀ n m ist, (String.length (buf ist) < n)%nat →
            (String.length (buf ist) < m)%nat →
            skip_headers_loop n ist = skip_headers_loop m ist) as Hgen.
  { clear. induction n as [|n IH]; intros m ist Hn Hm; [lia |].
    destruct m as [|m]; [lia |]. simpl.
    unfold getline. destruct (good ist); [| done].
    destruct (buf ist) as [|c s] eqn:Hbuf; [done |].
    destruct (read_line (String c s)) as [[l r] nl] eqn:Hrl.
    destruct (read_line_lines (String c s) l r nl) as (_ & Hr & _);
      [done | done |].
    destruct nl.
    - destruct (negb (is_empty l) && negb (String.eqb l CR)); [| done].
      apply IH; simpl in *; lia.
    - destruct (is_empty l) eqn:He; [done |]. cbv iota beta. rewrite He.
      destruct (negb false && negb (String.eqb l CR)); [| done].
      apply IH; simpl in *; lia. }
  intros. apply Hgen; [done | lia].
Qed.

(** ** Counting *)

Lemma wrap_in_int z : Int.in_int z → Int.wrap z = z.
Proof.
  unfold Int.in_int, Int.wrap, Int.INT_MIN, Int.INT_MAX. intros Hz.
  rewrite Z.mod_small; lia.
Qed.

Lemma wrap_wrap_add x y : Int.wrap (Int.wrap x + y) = Int.wrap (x + y).
Proof.
  unfold Int.wrap. f_equal.
  replace ((x + 2147483648) mod 4294967296 - 2147483648 + y + 2147483648)
    with ((x + 2147483648) mod 4294967296 + y) by lia.
  rewrite Z.add_mod_idemp_l by lia. f_equal. lia.
Qed.

Lemma incr_wrap x : Int.incr (Int.wrap x) = Int.wrap (x + 1).
Proof. apply wrap_wrap_add. Qed.

(** The counters after the tokens [T]: the number of tokens and of known
    tokens was added to them, within the 32 bits of an [int]. *)
Lemma fold_accumulate d T w e :
  fold_left (accumulate d) T {| wordCount := Int.wrap w; englishWords := Int.wrap e |} =
    {| wordCount := Int.wrap (w + Z.of_nat (length T));
       englishWords := Int.wrap (e + Z.of_nat (recognized d T)) |}.
Proof.
  revert w e. induction T as [|x T IH]; intros w e.
  - simpl. by rewrite !Z.add_0_r.
  - cbn [fold_left length recognized]. unfold accumulate at 2. cbn [wordCount englishWords].
    rewrite incr_wrap. destruct (checkWord d x).
    + rewrite incr_wrap, IH. f_equal; f_equal; lia.
    + rewrite IH. f_equal; f_equal; lia.
Qed.

Lemma fold_accumulate_0 d T :
  fold_left (accumulate d) T tally0 =
    {| wordCount := Int.wrap (Z.of_nat (length T));
       englishWords := Int.wrap (Z.of_nat (recognized d T)) |}.
Proof. apply (fold_accumulate d T 0 0). Qed.

Lemma recognized_le d T : (recognized d T ≤ length T)%nat.
Proof.
  induction T as [|x T IH]; simpl; [lia |]. destruct (checkWord d x); lia.
Qed.

Lemma recognized_ext d1 d2 T :
  Forall (fun w => checkWord d1 w = checkWord d2 w) T →
  recognized d1 T = recognized d2 T.
Proof. induction 1 as [|x T Hx _ IH]; simpl; [done | by rewrite Hx, IH]. Qed.

(** ** Runs of word characters *)

Lemma count_runs_inside p s :
  (count_runs p true s + (if match s with EmptyString => false | String c _ => p c end
                          then 1 else 0))%nat = count_runs p false s.
Proof. destruct s as [|c s]; simpl; [done |]. destruct (p c); lia. Qed.

Lemma split_ws_length s :
  length (split_ws s) = count_runs (fun c => negb (isspace c)) false s.
Proof.
  induction s as [|c s IH]; simpl; [done |].
  destruct (isspace c); simpl; [done |].
  assert ((count_runs (fun c => negb (isspace c)) true s +
           (if starts_word s then 1 else 0))%nat = length (split_ws s)) as Hin.
  { rewrite IH. apply count_runs_inside. }
  destruct (starts_word s) eqn:Hs.
  - destruct (split_ws s) eqn:Hsplit; [by apply split_ws_nonempty in Hs |].
    simpl in Hin |- *. lia.
  - simpl. lia.
Qed.

Lemma count_runs_transform p f inside s :
  count_runs p inside (transform f s) = count_runs (fun c => p (f c)) inside s.
Proof.
  revert inside. induction s as [|c s IH]; intros inside; simpl; [done |].
  by rewrite !IH.
Qed.

Lemma count_runs_ext p q inside s :
  (∀ c, p c = q c) → count_runs p inside s = count_runs q inside s.
Proof.
  intros Hpq. revert inside. induction s as [|c s IH]; intros inside; simpl; [done |].
  by rewrite Hpq, !IH.
Qed.

(** There are as many tokens as runs of characters that are neither
    whitespace nor punctuation. *)
Lemma tokenize_length s :
  length (tokenize s) = count_runs word_char false s.
Proof.
  unfold tokenize. rewrite normalize_transform, split_ws_length.
  rewrite count_runs_transform. apply count_runs_ext.
  intros c. by rewrite word_char_norm.
Qed.

(** ** The counters of [processFile] *)

Lemma good_failed ist : failbit ist = true → good ist = false.
Proof. unfold good. intros ->. by rewrite andb_false_r. Qed.

Lemma processFile_tally_response d hdrs sep body :
  forallb header_line hdrs = true →
  is_boundary sep = true →
  processFile_tally d (stringstream (response hdrs sep body)) =
    fold_left (accumulate d) (tokenize body) tally0.
Proof.
  intros Hh Hs. unfold processFile_tally.
  by rewrite skip_headers_response, payload_loop_fold.
Qed.

Lemma processFile_tally_no_boundary d s :
  no_boundary s → processFile_tally d (stringstream s) = tally0.
Proof.
  intros [_ Hf]%skip_headers_no_boundary. unfold processFile_tally.
  by rewrite payload_loop_fold, good_failed.
Qed.

Lemma processFile_tally_failed d : processFile_tally d failed_stream = tally0.
Proof. done. Qed.

(** ** The threads of [main] *)

Section MainProperties.

Variable d : Dictionary.
Variable net : network.
Variable argv : list string.

Local Abbreviation argc := (Main.argc argv).
Local Abbreviation step := (Main.step d net argv).
Local Abbreviation init := (Main.init argv).
Local Abbreviation invariant := (Main.invariant d net argv).

Lemma invariant_init : invariant init.
Proof.
  split; simpl.
  - apply length_replicate.
  - lia.
  - intros i Hi. by apply not_elem_of_empty in Hi.
  - intros i file Hi. lia.
Qed.

Lemma invariant_step s s' : invariant s → step s s' → invariant s'.
Proof.
  intros [Hlen Hpos Hrun Hstats] Hstep.
  destruct Hstep as [s Hnext | s i file Hi Hfile]; split; simpl.
  - done.
  - lia.
  - intros i [->%elem_of_singleton | Hi]%elem_of_union; [lia |].
    destruct (Hrun i Hi). lia.
  - intros i file Hi Hnot Hfile.
    apply not_elem_of_union in Hnot as [Hne%not_elem_of_singleton Hnot].
    apply Hstats; [lia | done | done].
  - by rewrite length_insert.
  - done.
  - intros j [Hj _]%elem_of_difference. by apply Hrun.
  - intros j file' Hj Hnot Hfile'.
    destruct (decide (j = i)) as [-> | Hne].
    + assert (file' = file) as -> by congruence.
      apply list_lookup_insert_eq. destruct (Hrun i Hi). lia.
    + rewrite list_lookup_insert_ne by done.
      apply Hstats; [done | | done].
      intros Hin. apply Hnot, elem_of_difference. split; [done |].
      by rewrite elem_of_singleton.
Qed.

Lemma invariant_rtc s : rtc step init s → invariant s.
Proof.
  intros Hrtc. apply rtc_nsteps in Hrtc as [n Hn].
  revert s Hn. induction n as [|n IH]; intros s Hn.
  - inversion Hn; subst. apply invariant_init.
  - apply nsteps_inv_r in Hn as (s' & Hs' & Hstep).
    eapply invariant_step; [by apply IH | done].
Qed.

(** Once every thread is joined, each slot holds the result for the
    argument at its own index. *)
Lemma joined_stats s i file :
  rtc step init s → Main.joined argv s →
  (1 ≤ i)%nat → argv !! i = Some file →
  Main.stats s !! i = Some (getStats d net file).
Proof.
  intros Hrtc [Hnext Hrun] Hi Hfile.
  apply (Main.inv_stats d net argv s (invariant_rtc s Hrtc)); [| | done].
  - apply lookup_lt_Some in Hfile. unfold Main.argc in Hnext. lia.
  - rewrite Hrun. apply not_elem_of_empty.
Qed.

Lemma print_report_from (stats : list string) files j acc :
  (∀ k file, files !! k = Some file →
             stats !! (j + k)%nat = Some (getStats d net file)) →
  fold_left (fun cout i => cout ++ (stats !!! i) ++ String "010"%char "")
    (seq j (length files)) acc =
  fold_left (fun cout file => cout ++ getStats d net file ++ String "010"%char "")
    files acc.
Proof.
  revert j acc. induction files as [|file files IH]; intros j acc Hst; [done |].
  simpl. rewrite (list_lookup_total_correct stats j (getStats d net file)).
  - apply IH. intros k file' Hk.
    replace (S j + k)%nat with (j + S k)%nat by lia. by apply Hst.
  - rewrite <- (Nat.add_0_r j). by apply Hst.
Qed.

(** What [main] prints after the joins is the report for its arguments. *)
Lemma joined_print s :
  rtc step init s → Main.joined argv s →
  Main.print argv (Main.stats s) = report d net (tail argv).
Proof.
  intros Hrtc Hj. unfold Main.print, report.
  replace (argc - 1)%nat with (length (tail argv))
    by (unfold Main.argc; destruct argv; simpl; lia).
  apply print_report_from. intros k file Hk.
  apply joined_stats; [done | done | lia |].
  destruct argv; [done | done].
Qed.

(** One way to run [main]: every thread ends before the next is started. *)
Lemma run_in_turn k n stats :
  (1 ≤ n)%nat → (n + k = argc)%nat →
  ∃ s, rtc step {| Main.next := n; Main.running := ∅; Main.stats := stats |} s ∧
       Main.joined argv s.
Proof.
  revert n stats. induction k as [|k IH]; intros n stats Hn Hk.
  - eexists. split; [apply rtc_refl |]. split; simpl; [lia | done].
  - destruct (lookup_lt_is_Some_2 argv n) as [file Hfile];
      [unfold Main.argc in Hk; lia |].
    destruct (IH (S n) (<[n := getStats d net file]> stats)) as (s & Hs & Hj);
      [lia | lia |].
    exists s. split; [| done].
    eapply rtc_l; [apply Main.step_spawn; simpl; lia |]. simpl.
    eapply rtc_l.
    { apply (Main.step_finish _ _ _ _ n file); simpl; [| done].
      apply elem_of_union. left. by apply elem_of_singleton. }
    simpl. rewrite (right_id_L ∅ (∪)), difference_diag_L. done.
Qed.

Lemma run_exists : ∃ s, rtc step init s ∧ Main.joined argv s.
Proof.
  destruct (decide (argc = 0)%nat) as [H0 | Hpos].
  - exists init. split; [apply rtc_refl |]. split; simpl; [lia | done].
  - apply (run_in_turn (argc - 1)); lia.
Qed.

End MainProperties.

(** ** The sample run *)

(** The three threads are started and end in the order [c], [a], [b]. *)
Lemma sample_run :
  rtc (Main.step sample_dictionary sample_net sample_argv)
      (Main.init sample_argv) sample_final.
Proof.
  eapply rtc_l;
    [apply (Main.step_spawn sample_dictionary sample_net sample_argv);
     vm_compute; lia |].
  eapply rtc_l;
    [apply (Main.step_spawn sample_dictionary sample_net sample_argv);
     vm_compute; lia |].
  eapply rtc_l;
    [apply (Main.step_spawn sample_dictionary sample_net sample_argv);
     vm_compute; lia |].
  eapply rtc_l; [apply (Main.step_finish _ _ _ _ 3%nat "c"); by vm_compute |].
  eapply rtc_l; [apply (Main.step_finish _ _ _ _ 1%nat "a"); by vm_compute |].
  eapply rtc_l; [apply (Main.step_finish _ _ _ _ 2%nat "b"); by vm_compute |].
  match goal with
  | |- rtc _ ?x ?y => replace x with y by (by vm_compute)
  end.
  apply rtc_refl.
Qed.

Lemma sample_joined : Main.joined sample_argv sample_final.
Proof. split; [vm_compute; lia | reflexivity]. Qed.

(** * Main results *)

(** ** C1: results are reported in the order of the arguments *)

(** C1.  Whatever the order in which the threads end, [main] gets past its
    joins, and then slot [i] of the vector holds the result for the
    argument at position [i], every slot of an argument is filled, and the
    lines printed are the results in the order of the arguments. *)
Theorem main_results_in_input_order (d : Dictionary) (net : network)
    (argv : list string) :
  (∃ s, rtc (Main.step d net argv) (Main.init argv) s ∧ Main.joined argv s) ∧
  ∀ s, rtc (Main.step d net argv) (Main.init argv) s → Main.joined argv s →
    length (Main.stats s) = length argv ∧
    (∀ i file, (1 ≤ i)%nat → argv !! i = Some file →
       Main.stats s !! i = Some (getStats d net file)) ∧
    Main.print argv (Main.stats s) = report d net (tail argv).
Proof.
  split; [apply run_exists |]. intros s Hrtc Hj. split; [| split].
  - apply (Main.inv_length d net argv s (invariant_rtc d net argv s Hrtc)).
  - intros i file Hi Hfile. by apply (joined_stats d net argv).
  - by apply joined_print.
Qed.

Lemma main_results_in_input_order_witness :
  rtc (Main.step sample_dictionary sample_net sample_argv)
      (Main.init sample_argv) sample_final ∧
  Main.joined sample_argv sample_final ∧
  Main.print sample_argv (Main.stats sample_final) =
    report sample_dictionary sample_net ["a"; "b"; "c"].
Proof.
  split; [apply sample_run |]. split; [apply sample_joined |].
  apply (main_results_in_input_order sample_dictionary sample_net sample_argv).
  - apply sample_run.
  - apply sample_joined.
Defined.

(** ** C2: a response without a boundary line *)

Lemma format_stats_0 file :
  format_stats file tally0 = file ++ ": words=0, English words=0".
Proof. done. Qed.

(** C2, as the code has it.  When no line of the response is a boundary,
    the header loop ends within the rounds allowed to it, having read the
    whole text as headers, and leaves the stream failed: its [failbit] is
    set and it is not good.  No word is left for the payload loop and the
    result gives both counts as 0. *)
Theorem no_boundary_counts_nothing (d : Dictionary) (s file : string) :
  no_boundary s →
  (∀ fuel, (String.length s < fuel)%nat →
     skip_headers_loop fuel (stringstream s) = skip_headers (stringstream s)) ∧
  buf (skip_headers (stringstream s)) = "" ∧
  failbit (skip_headers (stringstream s)) = true ∧
  good (skip_headers (stringstream s)) = false ∧
  payload_words (skip_headers (stringstream s)) = [] ∧
  processFile_tally d (stringstream s) = tally0 ∧
  processFile d (stringstream s) file = file ++ ": words=0, English words=0".
Proof.
  intros Hnb. destruct (skip_headers_no_boundary s Hnb) as [Hbuf Hfail].
  split; [| split; [done | split; [done | split; [| split; [| split]]]]].
  - intros fuel Hfuel. by apply skip_headers_fuel.
  - by apply good_failed.
  - by rewrite payload_words_tokenize, good_failed.
  - by apply processFile_tally_no_boundary.
  - unfold processFile. by rewrite processFile_tally_no_boundary.
Qed.

Lemma no_boundary_counts_nothing_witness :
  no_boundary "The Quick Brown Fox jumps." ∧
  failbit (skip_headers (stringstream "The Quick Brown Fox jumps.")) = true ∧
  processFile sample_dictionary (stringstream "The Quick Brown Fox jumps.") "b" =
    "b: words=0, English words=0".
Proof.
  split; [reflexivity |].
  destruct (no_boundary_counts_nothing sample_dictionary
              "The Quick Brown Fox jumps." "b" eq_refl)
    as (_ & _ & Hfail & _ & _ & _ & Hresult).
  split; [exact Hfail | exact Hresult].
Defined.

(** So the text of such a response is not treated as payload: the two
    words of this one are not handed to the payload loop, and are not
    counted. *)
Lemma no_boundary_payload_lost :
  no_boundary "hello world" ∧
  tokenize "hello world" = ["hello"; "world"] ∧
  payload_words (skip_headers (stringstream "hello world")) ≠ tokenize "hello world" ∧
  wordCount (processFile_tally sample_dictionary (stringstream "hello world"))
    ≠ Z.of_nat (length (tokenize "hello world")).
Proof. split; [| split; [| split]]; by vm_compute. Qed.

(** ** C3: a fetch that fails *)

Lemma getStats_fetch d net file :
  getStats d net file =
    match fetch net file with
    | Some resp => processFile d (stringstream resp) file
    | None => file ++ ": words=0, English words=0"
    end.
Proof. unfold getStats. by destruct (fetch net file). Qed.




(** ** C4: the scan and the hash set *)

(** C4.  For every word, the scan of [checkWord] over the dictionary loaded
    from [english.txt] gives the answer that membership in the set of the
    words of that file gives. *)
Theorem checkWord_is_set_membership (fs : filesystem) (word : string) :
  checkWord (dictionary fs) word = contains (reference_set fs) word.
Proof.
  apply eq_true_iff_eq. rewrite checkWord_lookup.
  unfold dictionary, contains, reference_set.
  rewrite loadDictionary_lookup, bool_decide_eq_true, elem_of_list_to_set.
  case_bool_decide; split; done.
Qed.

(** ** C5: the tokens *)

(** C5.  The words that the payload loop hands on are those of the text
    with punctuation replaced by spaces and letters lowercased, split on
    runs of whitespace, in their order; the example line gives the five
    tokens and an empty text gives none. *)
Theorem payload_words_are_tokens :
  (∀ line, payload_words (stringstream line) = tokenize line) ∧
  payload_words (stringstream "The Quick Brown Fox jumps.") =
    ["the"; "quick"; "brown"; "fox"; "jumps"] ∧
  payload_words (stringstream "") = [].
Proof.
  split; [| split].
  - intros line. by rewrite payload_words_tokenize.
  - by vm_compute.
  - by vm_compute.
Qed.

(** ** C6: the two counters *)

Lemma fold_accumulate_small d T :
  Z.of_nat (length T) ≤ Int.INT_MAX →
  fold_left (accumulate d) T tally0 =
    {| wordCount := Z.of_nat (length T);
       englishWords := Z.of_nat (recognized d T) |}.
Proof.
  intros Hlen. pose proof (recognized_le d T) as Hrec.
  rewrite fold_accumulate_0.
  rewrite !wrap_in_int; [done | |]; unfold Int.in_int, Int.INT_MIN, Int.INT_MAX in *; lia.
Qed.

(** C6, as the code has it.  For a sequence of at most [INT_MAX] tokens,
    after each of its prefixes the count of known words is at most the
    count of words, which is the length of the prefix; so also at the
    end. *)
Theorem counters_invariant (d : Dictionary) (T : list string) :
  Z.of_nat (length T) ≤ Int.INT_MAX →
  ∀ k, (k ≤ length T)%nat →
    let t := fold_left (accumulate d) (take k T) tally0 in
    englishWords t ≤ wordCount t ∧ wordCount t = Z.of_nat k.
Proof.
  intros Hlen k Hk. cbv zeta.
  assert (length (take k T) = k) as Htake by (rewrite length_take; lia).
  rewrite fold_accumulate_small by lia. simpl. rewrite Htake.
  pose proof (recognized_le d (take k T)). lia.
Qed.

Lemma counters_invariant_witness :
  let T := ["the"; "quick"; "brown"; "fox"; "jumps"] in
  let t := fold_left (accumulate sample_dictionary) (take 5 T) tally0 in
  englishWords t ≤ wordCount t ∧ wordCount t = 5.
Proof.
  apply (counters_invariant sample_dictionary
           ["the"; "quick"; "brown"; "fox"; "jumps"]); [vm_compute; discriminate |].
  simpl. lia.
Defined.

Lemma recognized_replicate d w n :
  checkWord d w = true → recognized d (replicate n w) = n.
Proof. intros Hw. induction n as [|n IH]; simpl; [done | by rewrite Hw, IH]. Qed.

Lemma overflow_after_int_max (n : nat) :
  Z.of_nat n = Int.INT_MAX →
  fold_left (accumulate {["a" := true]}) ("zzz" :: replicate n "a") tally0 =
    {| wordCount := Int.INT_MIN; englishWords := Int.INT_MAX |}.
Proof.
  intros Hn. rewrite fold_accumulate_0.
  cbn [length recognized]. rewrite length_replicate.
  rewrite recognized_replicate by by vm_compute.
  replace (checkWord {["a" := true]} "zzz") with false by by vm_compute.
  rewrite Nat2Z.inj_succ, Nat.add_0_l, Hn. reflexivity.
Qed.

(** The bound is needed: with one unknown word followed by [INT_MAX] known
    ones, the count of words has wrapped to [INT_MIN]; it is below the
    count of known words and is not the number of tokens. *)
Lemma counters_overflow :
  let T := "zzz" :: replicate (Z.to_nat Int.INT_MAX) "a" in
  let t := fold_left (accumulate {["a" := true]}) T tally0 in
  ¬ (englishWords t ≤ wordCount t) ∧ wordCount t ≠ Z.of_nat (length T).
Proof.
  assert (Z.of_nat (Z.to_nat Int.INT_MAX) = Int.INT_MAX) as Hn.
  { apply Z2Nat.id. discriminate. }
  revert Hn. generalize (Z.to_nat Int.INT_MAX). intros n Hn. cbv zeta.
  rewrite (overflow_after_int_max n Hn).
  cbn [wordCount englishWords length]. rewrite length_replicate.
  rewrite Nat2Z.inj_succ, Hn.
  split; [intros H; exact (H eq_refl) | discriminate].
Qed.

(** ** C7: an empty payload *)

(** C7.  When nothing follows the boundary line of a response, both
    counters end at 0 and the result is the line of statistics that says
    so. *)
Theorem empty_payload_counts_nothing (d : Dictionary)
    (hdrs : list string) (sep file : string) :
  forallb header_line hdrs = true →
  is_boundary sep = true →
  processFile_tally d (stringstream (response hdrs sep "")) = tally0 ∧
  processFile d (stringstream (response hdrs sep "")) file =
    file ++ ": words=0, English words=0".
Proof.
  intros Hh Hs. unfold processFile.
  by rewrite processFile_tally_response.
Qed.

Lemma empty_payload_counts_nothing_witness :
  let hdrs := ["HTTP/1.1 200 OK" ++ CR; "Content-Length: 0" ++ CR] in
  processFile_tally sample_dictionary (stringstream (response hdrs CR "")) = tally0 ∧
  processFile sample_dictionary (stringstream (response hdrs CR "")) "a" =
    "a" ++ ": words=0, English words=0".
Proof.
  apply (empty_payload_counts_nothing sample_dictionary
           ["HTTP/1.1 200 OK" ++ CR; "Content-Length: 0" ++ CR] CR "a");
    reflexivity.
Defined.

(** ** C8: the exit code *)

Lemma returns_exit_code d net argv cout code :
  Main.returns d net argv cout code → code = 0.
Proof. by intros (s & _ & _ & _ & ->). Qed.

Lemma returns_exists d net argv :
  Main.returns d net argv (report d net (tail argv)) 0.
Proof.
  destruct (run_exists d net argv) as (s & Hrtc & Hj).
  exists s. split; [done |]. split; [done |]. split; [| done].
  symmetry. by apply joined_print.
Qed.

(** C8, as the code has it.  [main] returns, and the code it returns is 0,
    the code of success, whether the fetches failed or not. *)
Theorem main_exit_code_is_zero (d : Dictionary) (net : network)
    (argv : list string) :
  (∃ cout, Main.returns d net argv cout 0) ∧
  ∀ cout code, Main.returns d net argv cout code → code = 0.
Proof.
  split.
  - eexists. apply returns_exists.
  - apply returns_exit_code.
Qed.

Lemma main_exit_code_is_zero_witness :
  Main.returns sample_dictionary sample_net sample_argv
    (Main.print sample_argv (Main.stats sample_final)) Main.exit_code ∧
  Main.exit_code = 0.
Proof.
  assert (Main.returns sample_dictionary sample_net sample_argv
            (Main.print sample_argv (Main.stats sample_final)) 0) as Hret.
  { exists sample_final.
    split; [apply sample_run |]. split; [apply sample_joined | done]. }
  split; [exact Hret |].
  exact (proj2 (main_exit_code_is_zero sample_dictionary sample_net sample_argv)
           _ _ Hret).
Defined.

(** Failure does not show in the code: every fetch of this batch fails,
    and [main] returns 0, never another code. *)
Lemma all_failed_exit_code_zero :
  all_failed sample_net ["./homework4"; "c"; "d"] ∧
  (∃ cout, Main.returns sample_dictionary sample_net ["./homework4"; "c"; "d"] cout 0) ∧
  ∀ cout code,
    Main.returns sample_dictionary sample_net ["./homework4"; "c"; "d"] cout code →
    code = 0.
Proof.
  split; [| split].
  - intros file Hfile. simpl in Hfile.
    apply elem_of_cons in Hfile as [-> | Hfile]; [reflexivity |].
    apply list_elem_of_singleton in Hfile as ->. reflexivity.
  - eexists. apply returns_exists.
  - apply returns_exit_code.
Qed.

(** ** C9: entries with an uppercase letter *)

Lemma has_upper_transform s : has_upper (transform norm_char s) = false.
Proof.
  induction s as [|c s IH]; simpl; [done |].
  by rewrite norm_char_not_upper, IH.
Qed.

Lemma has_upper_split_ws s :
  has_upper s = false → Forall (fun w => has_upper w = false) (split_ws s).
Proof.
  induction s as [|c s IH]; simpl; [constructor |].
  intros [Hc Hs]%orb_false_iff. specialize (IH Hs).
  destruct (isspace c); [done |].
  destruct (starts_word s).
  - destruct (split_ws s) as [|w ws]; simpl.
    + constructor; [simpl; by rewrite Hc | done].
    + apply Forall_cons in IH as [Hw Hws].
      constructor; [simpl; by rewrite Hc, Hw | done].
  - constructor; [simpl; by rewrite Hc | done].
Qed.

Lemma has_upper_tokenize s : Forall (fun w => has_upper w = false) (tokenize s).
Proof.
  unfold tokenize. rewrite normalize_transform.
  apply has_upper_split_ws, has_upper_transform.
Qed.

Lemma checkWord_delete (d : Dictionary) entry w :
  w ≠ entry → checkWord (delete entry d) w = checkWord d w.
Proof.
  intros Hne. apply eq_true_iff_eq.
  by rewrite !checkWord_lookup, lookup_delete_ne.
Qed.

Lemma processFile_tally_fold d ist :
  processFile_tally d ist =
    if good (skip_headers ist)
    then fold_left (accumulate d) (tokenize (buf (skip_headers ist))) tally0
    else tally0.
Proof. unfold processFile_tally. by rewrite payload_loop_fold. Qed.

(** C9.  The dictionary holds the words of the file exactly as they stand
    there.  The words handed to [checkWord] have no uppercase letter, so an
    entry that has one equals none of them, and the result is what it would
    be without that entry. *)
Theorem uppercase_entry_never_matches (fs : filesystem) (filePath entry : string) :
  has_upper entry = true →
  (∀ w, loadDictionary fs filePath !! w =
          if bool_decide (w ∈ file_words fs filePath) then Some true else None) ∧
  (∀ ist w, w ∈ payload_words (skip_headers ist) →
          has_upper w = false ∧ w ≠ entry) ∧
  (∀ (d : Dictionary) ist file,
     processFile d ist file = processFile (delete entry d) ist file).
Proof.
  intros Hentry.
  assert (∀ s, Forall (fun w => w ≠ entry) (tokenize s)) as Hne.
  { intros s. eapply Forall_impl; [apply has_upper_tokenize |].
    simpl. intros w Hw ->. congruence. }
  split; [| split].
  - intros w. apply loadDictionary_lookup.
  - intros ist w. rewrite payload_words_tokenize.
    destruct (good (skip_headers ist)); [| by intros ?%elem_of_nil].
    intros Hw. split.
    + pose proof (has_upper_tokenize (buf (skip_headers ist))) as Hall.
      rewrite Forall_forall in Hall. by apply Hall.
    + pose proof (Hne (buf (skip_headers ist))) as Hall.
      rewrite Forall_forall in Hall. by apply Hall.
  - intros d ist file. unfold processFile. f_equal.
    rewrite !processFile_tally_fold.
    destruct (good (skip_headers ist)); [| done].
    rewrite !fold_accumulate_0. do 3 f_equal.
    apply recognized_ext. eapply Forall_impl; [apply Hne |].
    simpl. intros w Hw. symmetry. by apply checkWord_delete.
Qed.

(** With [Hello] in the reference file, neither [Hello] nor [hello] in the
    payload is counted as known. *)
Lemma uppercase_entry_never_matches_witness :
  let fs : filesystem := fun _ => Some "Hello the" in
  has_upper "Hello" = true ∧
  loadDictionary fs "english.txt" !! "Hello" = Some true ∧
  loadDictionary fs "english.txt" !! "hello" = None ∧
  processFile (loadDictionary fs "english.txt")
    (stringstream (response [] CR "Hello hello the")) "a" =
    "a: words=3, English words=1" ∧
  processFile (loadDictionary fs "english.txt")
    (stringstream (response [] CR "Hello hello the")) "a" =
  processFile (delete "Hello" (loadDictionary fs "english.txt"))
    (stringstream (response [] CR "Hello hello the")) "a".
Proof.
  cbv zeta. split; [reflexivity |].
  split; [by vm_compute |]. split; [by vm_compute |]. split; [by vm_compute |].
  apply (uppercase_entry_never_matches (fun _ => Some "Hello the")
           "english.txt" "Hello" eq_refl).
Defined.

(** ** C10: the count of words *)

Lemma processFile_wordCount d hdrs sep body :
  forallb header_line hdrs = true →
  is_boundary sep = true →
  wordCount (processFile_tally d (stringstream (response hdrs sep body))) =
    Int.wrap (Z.of_nat (count_runs word_char false body)).
Proof.
  intros Hh Hs. rewrite processFile_tally_response by done.
  rewrite fold_accumulate_0. simpl. by rewrite tokenize_length.
Qed.

(** C10, as the code has it.  For a payload with at most [INT_MAX] maximal
    runs of characters that are neither whitespace nor punctuation, the
    count of words is the number of these runs; [don't] counts as two
    words. *)
Theorem wordCount_is_number_of_runs (d : Dictionary)
    (hdrs : list string) (sep body : string) :
  forallb header_line hdrs = true →
  is_boundary sep = true →
  Z.of_nat (count_runs word_char false body) ≤ Int.INT_MAX →
  wordCount (processFile_tally d (stringstream (response hdrs sep body))) =
    Z.of_nat (count_runs word_char false body) ∧
  wordCount (processFile_tally d (stringstream (response hdrs sep "don't"))) = 2.
Proof.
  intros Hh Hs Hmax. rewrite !processFile_wordCount by done. split; [| done].
  apply wrap_in_int. unfold Int.in_int, Int.INT_MIN, Int.INT_MAX in *. lia.
Qed.

Lemma wordCount_is_number_of_runs_witness :
  let hdrs := ["HTTP/1.1 200 OK" ++ CR] in
  let body := "I don't know... do you?" in
  wordCount (processFile_tally sample_dictionary
               (stringstream (response hdrs CR body))) =
    Z.of_nat (count_runs word_char false body) ∧
  wordCount (processFile_tally sample_dictionary
               (stringstream (response hdrs CR "don't"))) = 2.
Proof.
  apply (wordCount_is_number_of_runs sample_dictionary
           ["HTTP/1.1 200 OK" ++ CR] CR "I don't know... do you?");
    [reflexivity | reflexivity | vm_compute; discriminate].
Defined.

Lemma count_runs_repeat n :
  count_runs word_char false (string_repeat n "a ") = n.
Proof.
  induction n as [|n IH]; [done |].
  change (count_runs word_char false (string_repeat (S n) "a "))
    with (S (count_runs word_char false (string_repeat n "a "))).
  by rewrite IH.
Qed.

(** The bound is needed: a payload of [INT_MAX + 1] words has that many
    runs, and the count of words has wrapped to [INT_MIN]. *)
Lemma wordCount_overflow :
  let body := string_repeat (Z.to_nat (Int.INT_MAX + 1)) "a " in
  wordCount (processFile_tally ∅ (stringstream (response [] CR body)))
    ≠ Z.of_nat (count_runs word_char false body).
Proof.
  assert (Z.of_nat (Z.to_nat (Int.INT_MAX + 1)) = Int.INT_MAX + 1) as Hn.
  { apply Z2Nat.id. discriminate. }
  revert Hn. generalize (Z.to_nat (Int.INT_MAX + 1)). intros n Hn. cbv zeta.
  rewrite processFile_wordCount by done.
  rewrite count_runs_repeat, Hn. discriminate.
Qed.

(** * Further properties *)

(** ** The dictionary *)

Lemma file_words_nil_dictionary fs filePath :
  file_words fs filePath = [] → loadDictionary fs filePath = ∅.
Proof. intros Hw. by rewrite loadDictionary_fold, Hw. Qed.

Lemma checkWord_empty w : checkWord ∅ w = false.
Proof.
  apply not_true_is_false. rewrite checkWord_lookup, lookup_empty. done.
Qed.

Lemma recognized_empty T : recognized ∅ T = 0%nat.
Proof.
  induction T as [|w T IH]; simpl; [done |]. by rewrite checkWord_empty, IH.
Qed.

(** X1.  When [english.txt] cannot be opened, or holds no word, the
    dictionary is empty: [checkWord] answers no for every word, and
    [processFile] reports 0 English words for every stream. *)
Theorem no_dictionary_no_english_words (fs : filesystem) :
  file_words fs "english.txt" = [] →
  dictionary fs = ∅ ∧
  (∀ word, checkWord (dictionary fs) word = false) ∧
  (∀ ist, englishWords (processFile_tally (dictionary fs) ist) = 0).
Proof.
  intros Hw. assert (dictionary fs = ∅) as ->
    by (unfold dictionary; by apply file_words_nil_dictionary).
  split; [done |]. split; [apply checkWord_empty |].
  intros ist. rewrite processFile_tally_fold.
  destruct (good (skip_headers ist)); [| done].
  by rewrite fold_accumulate_0, recognized_empty.
Qed.

Lemma no_dictionary_no_english_words_witness :
  let fs : filesystem := fun _ => None in
  dictionary fs = ∅ ∧
  (∀ word, checkWord (dictionary fs) word = false) ∧
  (∀ ist, englishWords (processFile_tally (dictionary fs) ist) = 0).
Proof. apply (no_dictionary_no_english_words (fun _ => None)). reflexivity. Defined.

(** X2.  The dictionary depends on the set of the words of the file only:
    files with the same words, in whatever order and however often
    repeated, give the same dictionary. *)
Theorem dictionary_of_word_set (fs1 fs2 : filesystem) (path1 path2 : string) :
  (∀ w, w ∈ file_words fs1 path1 ↔ w ∈ file_words fs2 path2) →
  loadDictionary fs1 path1 = loadDictionary fs2 path2.
Proof.
  intros Hsame. apply map_eq. intros w.
  rewrite !loadDictionary_lookup.
  by rewrite (bool_decide_ext _ _ (Hsame w)).
Qed.

Lemma dictionary_of_word_set_witness :
  loadDictionary (fun _ => Some "fox the fox  quick the") "english.txt" =
  loadDictionary sample_fs "english.txt".
Proof.
  apply (dictionary_of_word_set (fun _ => Some "fox the fox  quick the") sample_fs
           "english.txt" "english.txt").
  intros w. vm_compute file_words.
  rewrite !elem_of_cons, !elem_of_nil. tauto.
Defined.

(** X3.  The answer of [checkWord] does not depend on the order in which
    the container enumerates its entries: the scan over any permutation of
    them gives the same answer, which is yes exactly for the words mapped
    to [true] (an entry with the flag [false], or no entry, gives no). *)
Theorem checkWord_order_independent (d : Dictionary) (word : string)
    (entries : list (string * bool)) :
  entries ≡ₚ map_to_list d →
  fold_left (scan_step word) entries false = checkWord d word ∧
  (checkWord d word = true ↔ d !! word = Some true).
Proof.
  intros Hperm. split; [| apply checkWord_lookup].
  apply eq_true_iff_eq. unfold checkWord.
  rewrite !scan_found. by rewrite Hperm.
Qed.

Lemma checkWord_order_independent_witness :
  fold_left (scan_step "fox") (reverse (map_to_list sample_dictionary)) false =
    checkWord sample_dictionary "fox" ∧
  (checkWord sample_dictionary "fox" = true ↔
   sample_dictionary !! "fox" = Some true).
Proof.
  apply (checkWord_order_independent sample_dictionary "fox"
           (reverse (map_to_list sample_dictionary))).
  apply reverse_Permutation.
Defined.

(** ** Headers and streams *)

(** X4.  The headers of a response are never counted: the words handed to
    [checkWord] are the tokens of the payload, so two responses with the
    same payload give the same result whatever their header lines and
    whichever of the two boundary lines they use. *)
Theorem headers_do_not_count (d : Dictionary)
    (hdrs1 hdrs2 : list string) (sep1 sep2 body file : string) :
  forallb header_line hdrs1 = true → is_boundary sep1 = true →
  forallb header_line hdrs2 = true → is_boundary sep2 = true →
  payload_words (skip_headers (stringstream (response hdrs1 sep1 body))) =
    tokenize body ∧
  processFile d (stringstream (response hdrs1 sep1 body)) file =
    processFile d (stringstream (response hdrs2 sep2 body)) file.
Proof.
  intros Hh1 Hs1 Hh2 Hs2. split.
  - by rewrite skip_headers_response, payload_words_tokenize.
  - unfold processFile. by rewrite !processFile_tally_response.
Qed.

Lemma headers_do_not_count_witness :
  let body := "The Quick Brown Fox jumps." in
  let hdrs := ["HTTP/1.1 200 OK" ++ CR; "Server: the quick fox" ++ CR] in
  payload_words (skip_headers (stringstream (response hdrs CR body))) =
    tokenize body ∧
  processFile sample_dictionary (stringstream (response hdrs CR body)) "a" =
    processFile sample_dictionary (stringstream (response [] "" body)) "a".
Proof.
  apply (headers_do_not_count sample_dictionary
           ["HTTP/1.1 200 OK" ++ CR; "Server: the quick fox" ++ CR] [] CR ""
           "The Quick Brown Fox jumps." "a"); reflexivity.
Defined.

Lemma skip_headers_not_good ist :
  good ist = false → skip_headers ist = set_fail ist.
Proof.
  intros Hg. unfold skip_headers. simpl. unfold getline. by rewrite Hg.
Qed.

(** X5.  On a stream that is not good when [processFile] is entered (its
    [failbit] or [eofbit] is set), nothing is read, whatever text the
    stream holds: both counters stay 0. *)
Theorem bad_stream_counts_nothing (d : Dictionary) (ist : istream) (file : string) :
  good ist = false →
  processFile_tally d ist = tally0 ∧
  processFile d ist file = file ++ ": words=0, English words=0".
Proof.
  intros Hg.
  assert (processFile_tally d ist = tally0) as Ht.
  { rewrite processFile_tally_fold, skip_headers_not_good by done.
    by rewrite good_failed. }
  split; [done |]. unfold processFile. by rewrite Ht.
Qed.

Lemma bad_stream_counts_nothing_witness :
  let ist := {| buf := CRLF ++ "the quick fox"; eofbit := false; failbit := true |} in
  processFile_tally sample_dictionary ist = tally0 ∧
  processFile sample_dictionary ist "a" = "a" ++ ": words=0, English words=0".
Proof.
  apply (bad_stream_counts_nothing sample_dictionary
           {| buf := CRLF ++ "the quick fox"; eofbit := false; failbit := true |} "a").
  reflexivity.
Defined.

(** ** The words handed to [checkWord] *)

Lemma transform_append f a b :
  transform f (a ++ b) = transform f a ++ transform f b.
Proof. induction a as [|c a IH]; simpl; [done | by rewrite IH]. Qed.

Lemma starts_word_append a b :
  a ≠ "" → starts_word (a ++ b) = starts_word a.
Proof. by destruct a. Qed.

(** A whitespace character between two texts keeps their fragments
    apart. *)
Lemma split_ws_append a c b :
  isspace c = true →
  split_ws (a ++ String c b) = (split_ws a ++ split_ws b)%list.
Proof.
  intros Hc. induction a as [|x a IH]; simpl; [by rewrite Hc |].
  destruct (isspace x); [done |].
  destruct a as [|y a'].
  - simpl. by rewrite Hc.
  - rewrite starts_word_append by done. rewrite IH.
    destruct (starts_word (String y a')) eqn:Hs; [| done].
    symmetry. apply push_front_app. by apply split_ws_nonempty.
Qed.

Lemma tokenize_append a c b :
  separator c = true →
  tokenize (a ++ String c b) = (tokenize a ++ tokenize b)%list.
Proof.
  intros Hc. unfold tokenize. rewrite !normalize_transform, transform_append.
  simpl. apply split_ws_append. by rewrite norm_char_isspace.
Qed.

(** X6.  The words of two texts joined by a whitespace or punctuation
    character are the words of the first followed by the words of the
    second: no word is lost, made or merged at the joint. *)
Theorem payload_words_append (a b : string) (c : ascii) :
  separator c = true →
  payload_words (stringstream (a ++ String c b)) =
    (payload_words (stringstream a) ++ payload_words (stringstream b))%list.
Proof.
  intros Hc. rewrite !payload_words_tokenize. simpl.
  by apply tokenize_append.
Qed.

Lemma payload_words_append_witness :
  payload_words (stringstream ("The Quick" ++ String ","%char "brown fox.")) =
    (payload_words (stringstream "The Quick") ++
     payload_words (stringstream "brown fox."))%list.
Proof. apply (payload_words_append "The Quick" "brown fox." ","%char). reflexivity. Defined.

Lemma string_all_transform p f s :
  string_all p (transform f s) = string_all (fun c => p (f c)) s.
Proof. induction s as [|c s IH]; simpl; [done | by rewrite IH]. Qed.

Lemma string_all_true p s : (∀ c, p c = true) → string_all p s = true.
Proof. intros Hp. induction s as [|c s IH]; simpl; [done | by rewrite Hp, IH]. Qed.

(** The fragments are not empty and hold no whitespace; what holds of all
    characters of the text holds of all characters of the fragments. *)
Lemma split_ws_fragments p s :
  string_all p s = true →
  Forall (fun w => w ≠ "" ∧
                   string_all (fun c => negb (isspace c) && p c) w = true)
    (split_ws s).
Proof.
  induction s as [|c s IH]; simpl; [constructor |].
  intros [Hc Hs]%andb_true_iff. specialize (IH Hs).
  destruct (isspace c) eqn:Hsp; [done |].
  destruct (starts_word s).
  - destruct (split_ws s) as [|w ws]; simpl.
    + constructor; [| done]. split; [done |]. simpl. by rewrite Hsp, Hc.
    + apply Forall_cons in IH as [[Hne Hw] Hws].
      constructor; [| done]. split; [done |]. simpl. by rewrite Hsp, Hc, Hw.
  - constructor; [| done]. split; [done |]. simpl. by rewrite Hsp, Hc.
Qed.

Lemma norm_char_token c :
  negb (ispunct (norm_char c)) && negb (isupper (norm_char c)) = true.
Proof. by_cases_on_char c. Qed.

Lemma tokenize_token_chars s :
  Forall (fun w => w ≠ "" ∧ string_all token_char w = true) (tokenize s).
Proof.
  unfold tokenize. rewrite normalize_transform.
  eapply Forall_impl.
  - apply (split_ws_fragments
             (fun c => negb (ispunct c) && negb (isupper c))).
    rewrite string_all_transform. apply string_all_true, norm_char_token.
  - simpl. intros w [Hne Hw]. split; [done |].
    erewrite <- Hw. clear. induction w as [|c w IH]; simpl; [done |].
    rewrite IH. unfold token_char. by rewrite andb_assoc.
Qed.

(** X7.  For every stream, no word handed to [checkWord] is empty, and
    none holds a whitespace character, a punctuation character or an
    uppercase letter. *)
Theorem payload_words_token_chars (ist : istream) :
  Forall (fun w => w ≠ "" ∧ string_all token_char w = true) (payload_words ist).
Proof.
  rewrite payload_words_tokenize. destruct (good ist); [| constructor].
  apply tokenize_token_chars.
Qed.

(** ** Texts without words, and the case of letters *)

Lemma count_runs_0 p s :
  count_runs p false s = 0%nat ↔ string_all (fun c => negb (p c)) s = true.
Proof.
  induction s as [|c s IH]; simpl; [done |].
  destruct (p c); simpl; [| apply IH].
  split; [lia | done].
Qed.

Lemma tokenize_nil s :
  tokenize s = [] ↔ string_all separator s = true.
Proof.
  rewrite <- length_zero_iff_nil, tokenize_length, count_runs_0.
  assert (∀ c, negb (word_char c) = separator c) as Hsep
    by (intros c; by_cases_on_char c).
  assert (string_all (fun c => negb (word_char c)) s = string_all separator s) as ->.
  { induction s as [|c s IH]; simpl; [done | by rewrite Hsep, IH]. }
  done.
Qed.

(** X8.  The payload loop finds no word in a text exactly when every
    character of the text is whitespace or punctuation. *)
Theorem no_words_iff_only_separators (s : string) :
  payload_words (stringstream s) = [] ↔ string_all separator s = true.
Proof. rewrite payload_words_tokenize. simpl. apply tokenize_nil. Qed.

Lemma no_words_iff_only_separators_witness :
  string_all separator " ... -- !? " = true ∧
  payload_words (stringstream " ... -- !? ") = [].
Proof.
  split; [reflexivity |].
  apply (proj2 (no_words_iff_only_separators " ... -- !? ")). reflexivity.
Defined.

Lemma norm_char_tolower c : norm_char (tolower c) = norm_char c.
Proof. by_cases_on_char c. Qed.

Lemma transform_transform f g s :
  transform f (transform g s) = transform (fun c => f (g c)) s.
Proof. induction s as [|c s IH]; simpl; [done | by rewrite IH]. Qed.

Lemma transform_ext f g s :
  (∀ c, f c = g c) → transform f s = transform g s.
Proof. intros Hfg. induction s as [|c s IH]; simpl; [done | by rewrite Hfg, IH]. Qed.

(** X9.  The case of the letters of a text does not matter: the text with
    its letters lowercased gives the same words, and so the same counts,
    as the text itself. *)
Theorem payload_words_ignore_case (d : Dictionary) (s : string) :
  payload_words (stringstream (transform tolower s)) =
    payload_words (stringstream s) ∧
  payload_loop (accumulate d) (stringstream (transform tolower s)) tally0 =
    payload_loop (accumulate d) (stringstream s) tally0.
Proof.
  assert (tokenize (transform tolower s) = tokenize s) as Htok.
  { unfold tokenize. rewrite !normalize_transform, transform_transform.
    f_equal. apply transform_ext, norm_char_tolower. }
  split.
  - rewrite !payload_words_tokenize. simpl. exact Htok.
  - rewrite !payload_loop_fold. simpl. by rewrite Htok.
Qed.

(** ** The counters and the dictionary *)

Lemma recognized_mono (d1 d2 : Dictionary) T :
  d1 ⊆ d2 → (recognized d1 T ≤ recognized d2 T)%nat.
Proof.
  intros Hsub. induction T as [|w T IH]; simpl; [lia |].
  destruct (checkWord d1 w) eqn:H1.
  - apply checkWord_lookup in H1.
    apply (lookup_weaken _ d2) in H1; [| done].
    apply checkWord_lookup in H1 as ->. lia.
  - destruct (checkWord d2 w); lia.
Qed.

(** X10.  The count of words does not depend on the dictionary.  With a
    larger dictionary the count of English words is not smaller, as long
    as the words are at most [INT_MAX]. *)
Theorem counts_and_dictionary (d1 d2 : Dictionary) (ist : istream) :
  wordCount (processFile_tally d1 ist) = wordCount (processFile_tally d2 ist) ∧
  (d1 ⊆ d2 →
   Z.of_nat (length (payload_words (skip_headers ist))) ≤ Int.INT_MAX →
   englishWords (processFile_tally d1 ist) ≤ englishWords (processFile_tally d2 ist)).
Proof.
  rewrite !processFile_tally_fold, payload_words_tokenize.
  destruct (good (skip_headers ist)); [| done].
  rewrite !fold_accumulate_0. simpl. split; [done |].
  intros Hsub Hlen.
  pose proof (recognized_mono d1 d2 (tokenize (buf (skip_headers ist))) Hsub).
  pose proof (recognized_le d2 (tokenize (buf (skip_headers ist)))).
  rewrite !wrap_in_int; unfold Int.in_int, Int.INT_MIN, Int.INT_MAX in *; lia.
Qed.

Lemma counts_and_dictionary_witness :
  let ist := stringstream (response [] CR "The Quick Brown Fox jumps.") in
  let d1 : Dictionary := {["fox" := true]} in
  wordCount (processFile_tally d1 ist) =
    wordCount (processFile_tally sample_dictionary ist) ∧
  englishWords (processFile_tally d1 ist) ≤
    englishWords (processFile_tally sample_dictionary ist).
Proof.
  cbv zeta.
  destruct (counts_and_dictionary {["fox" := true]} sample_dictionary
              (stringstream (response [] CR "The Quick Brown Fox jumps.")))
    as [Hw He].
  split; [exact Hw |]. apply He.
  - apply map_subseteq_spec. intros w v.
    intros [<- <-]%lookup_singleton_Some. reflexivity.
  - vm_compute. discriminate.
Defined.

Lemma checkWord_loaded fs filePath w :
  checkWord (loadDictionary fs filePath) w =
    bool_decide (w ∈ file_words fs filePath).
Proof.
  apply eq_true_iff_eq.
  rewrite checkWord_lookup, loadDictionary_lookup, bool_decide_eq_true.
  case_bool_decide; split; done.
Qed.

Lemma recognized_loaded fs filePath T :
  recognized (loadDictionary fs filePath) T =
    count_known (file_words fs filePath) T.
Proof.
  induction T as [|w T IH]; simpl; [done |].
  by rewrite checkWord_loaded, IH.
Qed.

(** X11.  The whole of [getStats]: when the connection is made and the
    response has header lines, a boundary line and a payload of at most
    [INT_MAX] words, the result names the file, the number of tokens of
    the payload, and the number of those tokens that are words of
    [english.txt]. *)
Theorem getStats_response (fs : filesystem) (net : network)
    (file : string) (hdrs : list string) (sep body : string) :
  fetch net file = Some (response hdrs sep body) →
  forallb header_line hdrs = true →
  is_boundary sep = true →
  Z.of_nat (length (tokenize body)) ≤ Int.INT_MAX →
  getStats (dictionary fs) net file =
    file ++ ": words=" ++ Int.to_string (Z.of_nat (length (tokenize body))) ++
    ", English words=" ++
    Int.to_string
      (Z.of_nat (count_known (file_words fs "english.txt") (tokenize body))).
Proof.
  intros Hfetch Hh Hs Hlen.
  rewrite getStats_fetch, Hfetch. unfold processFile.
  rewrite processFile_tally_response by done.
  rewrite fold_accumulate_small by done.
  unfold dictionary. by rewrite recognized_loaded.
Qed.

Lemma getStats_response_witness :
  getStats (dictionary sample_fs) sample_net "a" =
    "a" ++ ": words=" ++
    Int.to_string (Z.of_nat (length (tokenize "The Quick Brown Fox jumps."))) ++
    ", English words=" ++
    Int.to_string
      (Z.of_nat (count_known (file_words sample_fs "english.txt")
                   (tokenize "The Quick Brown Fox jumps."))).
Proof.
  apply (getStats_response sample_fs sample_net "a"
           ["HTTP/1.1 200 OK" ++ CR; "Content-Type: text/plain" ++ CR] CR
           "The Quick Brown Fox jumps.");
    [reflexivity | reflexivity | reflexivity | vm_compute; discriminate].
Defined.

(** ** The request *)

Lemma append_inv_head s a b : s ++ a = s ++ b → a = b.
Proof. induction s as [|c s IH]; simpl; [done |]. intros [= H]. by apply IH. Qed.

Lemma append_inv_tail s a b : a ++ s = b ++ s → a = b.
Proof.
  revert b. induction a as [|x a IH]; intros [|y b]; simpl; [done | | |].
  - intros H. apply (f_equal String.length) in H.
    rewrite !length_append in H. simpl in H. lia.
  - intros H. apply (f_equal String.length) in H.
    rewrite !length_append in H. simpl in H. lia.
  - intros [= -> H]. f_equal. by apply IH.
Qed.

(** X13.  Different files are asked for by different requests: two files
    for which [getStats] writes the same request are the same file. *)
Theorem request_injective (file1 file2 : string) :
  request file1 = request file2 → file1 = file2.
Proof.
  unfold request. intros H.
  apply append_inv_head, append_inv_tail, append_inv_head in H. done.
Qed.

Lemma request_injective_witness : "cpp.txt" = "cpp.txt".
Proof. apply (request_injective "cpp.txt" "cpp.txt"). reflexivity. Defined.

(** ** No arguments *)

(** X14.  Without file arguments [main] starts no thread: its first state
    is already the state behind the joins, no step is possible, nothing is
    printed and the code returned is 0. *)
Theorem main_without_arguments (d : Dictionary) (net : network)
    (argv : list string) :
  (length argv ≤ 1)%nat →
  Main.joined argv (Main.init argv) ∧
  (∀ s, ¬ Main.step d net argv (Main.init argv) s) ∧
  (∀ cout code, Main.returns d net argv cout code → cout = "" ∧ code = 0).
Proof.
  intros Hlen. split; [| split].
  - split; [unfold Main.argc; simpl; lia | done].
  - intros s Hstep. inversion Hstep as [s0 Hnext | s0 i file Hi Hfile]; subst.
    + unfold Main.argc in Hnext. simpl in Hnext. lia.
    + simpl in Hi. by apply not_elem_of_empty in Hi.
  - intros cout code (s & Hrtc & Hj & -> & ->). split; [| done].
    rewrite (joined_print d net argv s Hrtc Hj).
    destruct argv as [|prog [|file files]]; [done | done | simpl in Hlen; lia].
Qed.

Lemma main_without_arguments_witness :
  Main.joined ["./homework4"] (Main.init ["./homework4"]) ∧
  (∀ s, ¬ Main.step sample_dictionary sample_net ["./homework4"]
            (Main.init ["./homework4"]) s) ∧
  (∀ cout code,
     Main.returns sample_dictionary sample_net ["./homework4"] cout code →
     cout = "" ∧ code = 0).
Proof.
  apply (main_without_arguments sample_dictionary sample_net ["./homework4"]).
  simpl. lia.
Defined.

(** ** The keys of the dictionary *)

(** X15.  No key of a loaded dictionary is empty or holds a whitespace
    character, and every key is stored with the flag [true]. *)
Theorem dictionary_keys (fs : filesystem) (filePath w : string) (flag : bool) :
  loadDictionary fs filePath !! w = Some flag →
  flag = true ∧ w ≠ "" ∧ string_all (fun c => negb (isspace c)) w = true.
Proof.
  rewrite loadDictionary_lookup. case_bool_decide as Hw; [| done].
  intros [= <-]. split; [done |].
  unfold file_words in Hw. destruct (fs filePath) as [text |];
    [| by apply elem_of_nil in Hw].
  pose proof (split_ws_fragments (fun _ => true) text
                (string_all_true _ text (fun _ => eq_refl))) as Hall.
  rewrite Forall_forall in Hall. destruct (Hall w Hw) as [Hne Hchars].
  split; [done |]. rewrite <- Hchars. clear.
  induction w as [|c w IH]; simpl; [done |]. by rewrite IH, andb_true_r.
Qed.

Lemma dictionary_keys_witness :
  true = true ∧ "quick" ≠ "" ∧
  string_all (fun c => negb (isspace c)) "quick" = true.
Proof.
  apply (dictionary_keys sample_fs "english.txt" "quick" true).
  by vm_compute.
Defined.
